(** * Span extraction of [answer_question] (BERT_QA_Lecture_and_Example.ipynb)

    The notebook's only logic is the function

<<
    def answer_question(question, context):
        inputs = tokenizer(question, context, return_tensors="pt")
        input_ids = inputs["input_ids"].tolist()[0]
        outputs = model( **inputs )
        start_scores = outputs.start_logits
        end_scores = outputs.end_logits

        start_index = torch.argmax(start_scores)
        end_index = torch.argmax(end_scores) + 1
        answer = tokenizer.convert_tokens_to_string(
            tokenizer.convert_ids_to_tokens(input_ids[start_index:end_index])
        )
        return answer
>>

    The tokenizer and the model are external collaborators and stay abstract
    (section variables).  What is embedded is the part the notebook owns: the
    two [torch.argmax] calls, the [+ 1], the Python list slice and the order
    in which the pieces are chained. *)

From Stdlib Require Import String List ZArith QArith Bool Lia.
Import ListNotations.

Local Open Scope Z_scope.

(** ** Scores

    A logit is a float32.  Only comparisons of logits are ever performed, so
    a float is represented by the extended rational it denotes: a finite
    float is a (dyadic) rational, [+0.0] and [-0.0] both denote [0], and the
    three special values are kept apart.  Comparison of floats coincides with
    comparison of the denoted values. *)

Inductive score : Type :=
| NaN
| NegInf
| Fin (q : Q)
| PosInf.

Definition isnan (a : score) : bool :=
  match a with NaN => true | _ => false end.

(** IEEE [a == b]: false as soon as one side is NaN. *)
Definition score_eqb (a b : score) : bool :=
  match a, b with
  | NegInf, NegInf => true
  | PosInf, PosInf => true
  | Fin p, Fin q => Qeq_bool p q
  | _, _ => false
  end.

(** IEEE [a > b]: false as soon as one side is NaN. *)
Definition score_gtb (a b : score) : bool :=
  match a, b with
  | NaN, _ | _, NaN => false
  | NegInf, _ => false
  | Fin _, NegInf => true
  | Fin p, Fin q => negb (Qle_bool p q)
  | Fin _, PosInf => false
  | PosInf, PosInf => false
  | PosInf, _ => true
  end.

(** ** [torch.argmax]

    [torch.argmax(t)] without [dim] reduces the flattened tensor with the
    library's "greater or NaN" comparison on (value, index) pairs: a NaN
    beats every number, equal values are decided by the lower index, and
    otherwise the greater value wins.  The logits have shape [1, N], so the
    flattened tensor is the row of N scores and the flat index is the token
    position. *)

Definition greater_or_nan (a b : score) (idx_a idx_b : nat) : bool :=
  if isnan a then
    if isnan b then (idx_a <? idx_b)%nat else true
  else if score_eqb a b then (idx_a <? idx_b)%nat
  else score_gtb a b.

(** The reduction: [best] at [best_idx] is the accumulator, [idx] the
    position of the head of the remaining elements. *)
Fixpoint argmax_scan (best : score) (best_idx idx : nat) (l : list score) : nat :=
  match l with
  | [] => best_idx
  | x :: l' =>
      if greater_or_nan best x best_idx idx
      then argmax_scan best best_idx (S idx) l'
      else argmax_scan x idx (S idx) l'
  end.

(** Exceptions that the embedded lines can raise.  The only one is the
    library's refusal to reduce a tensor with no element
    ("argmax(): Expected reduction dim to be specified for
    input.numel() == 0"). *)
Inductive exn : Type :=
| ArgmaxOfEmpty.

Inductive result (A : Type) : Type :=
| Ok (a : A)
| Raise (e : exn).
Arguments Ok {A} a.
Arguments Raise {A} e.

Definition bind {A B : Type} (m : result A) (k : A -> result B) : result B :=
  match m with
  | Ok a => k a
  | Raise e => Raise e
  end.

Declare Scope result_scope.
Delimit Scope result_scope with result.
Notation "x <- m ;; k" := (bind m (fun x => k))
  (at level 61, m at next level, right associativity) : result_scope.
Local Open Scope result_scope.

Definition raised {A : Type} (r : result A) : bool :=
  match r with Ok _ => false | Raise _ => true end.

(** Position of the winning element, as a natural number. *)
Definition argmax_pos (t : list score) : option nat :=
  match t with
  | [] => None
  | x :: t' => Some (argmax_scan x 0 1 t')
  end.

(** [torch.argmax(t)]: a 0-dim int64 tensor, read as an integer.  A position
    is below the number of elements of a tensor in memory, far from the
    int64 limit, so neither the index nor the [+ 1] that follows wraps. *)
Definition torch_argmax (t : list score) : result Z :=
  match argmax_pos t with
  | None => Raise ArgmaxOfEmpty
  | Some i => Ok (Z.of_nat i)
  end.

(** ** Python list slicing [l[start:stop]]

    Each bound is adjusted as CPython does for a step of 1: a negative bound
    is counted from the end and clipped at 0, a bound beyond the end is
    clipped at the length; the slice is empty when the adjusted start is not
    below the adjusted stop. *)

Definition adjust_index (len i : Z) : Z :=
  if i <? 0 then Z.max 0 (i + len) else Z.min i len.

Definition py_slice {A : Type} (l : list A) (start stop : Z) : list A :=
  let len := Z.of_nat (length l) in
  let lo := adjust_index len start in
  let hi := adjust_index len stop in
  firstn (Z.to_nat (hi - lo)) (skipn (Z.to_nat lo) l).

(** ** The span extractor

    Lines 183-184 of the notebook, with the three values they have in scope.
    [input_ids] is in scope but is not read. *)

Definition extract_span (input_ids : list Z) (start_scores end_scores : list score)
  : result (Z * Z) :=
  start_index <- torch_argmax start_scores ;;
  end_index <- (i <- torch_argmax end_scores ;; Ok (i + 1)) ;;
  Ok (start_index, end_index).

(** The token ids that are handed to the renderer. *)
Definition answer_ids (input_ids : list Z) (start_scores end_scores : list score)
  : result (list Z) :=
  start_index <- torch_argmax start_scores ;;
  end_index <- (i <- torch_argmax end_scores ;; Ok (i + 1)) ;;
  Ok (py_slice input_ids start_index end_index).

(** ** The whole function, over its external collaborators *)

Section AnswerQuestion.

(** What [tokenizer(question, context, return_tensors="pt")] returns. *)
Variable batch_encoding : Type.
Variable tokenizer : string -> string -> batch_encoding.
(** [inputs["input_ids"].tolist()[0]]: the single row of token ids. *)
Variable input_ids_of : batch_encoding -> list Z.
(** [model( **inputs )]: the rows of [start_logits] and [end_logits]. *)
Variable model : batch_encoding -> list score * list score.
Variable convert_ids_to_tokens : list Z -> list string.
Variable convert_tokens_to_string : list string -> string.

Definition answer_question (question context : string) : result string :=
  let inputs := tokenizer question context in
  let input_ids := input_ids_of inputs in
  let outputs := model inputs in
  let start_scores := fst outputs in
  let end_scores := snd outputs in
  start_index <- torch_argmax start_scores ;;
  end_index <- (i <- torch_argmax end_scores ;; Ok (i + 1)) ;;
  let answer :=
    convert_tokens_to_string
      (convert_ids_to_tokens (py_slice input_ids start_index end_index)) in
  Ok answer.

End AnswerQuestion.

(** ** The order that the reduction implements

    [score_leb a b]: [b] kept at a lower index is not displaced by [a].
    NaN is the top element. *)

Definition score_leb (a b : score) : bool :=
  isnan b || score_eqb a b || score_gtb b a.

(** The same order as a proposition. *)
Definition score_le (a b : score) : Prop :=
  match a, b with
  | _, NaN => True
  | NaN, _ => False
  | NegInf, _ => True
  | Fin _, NegInf => False
  | Fin p, Fin q => (p <= q)%Q
  | Fin _, PosInf => True
  | PosInf, PosInf => True
  | PosInf, _ => False
  end.

(** [i] is the first position of [l] holding a maximal element. *)
Definition first_max (l : list score) (i : nat) : Prop :=
  exists x, nth_error l i = Some x /\
    (forall k y, nth_error l k = Some y -> score_leb y x = true) /\
    (forall k y, (k < i)%nat -> nth_error l k = Some y -> score_leb x y = false).

(** Decimal literal [n/d] as a score, kept exact.  It stands for a float32
    only where the literals of one example round to float32 values that are
    distinct and in the same order, as the tenths used in this file do;
    decimals that round to the same float32 must not be told apart with
    it. *)
Definition dec (n d : positive) : score := Fin (Z.pos n # d).

(** ** A toy instance of the collaborators

    Enough of a tokenizer and of a model to run [answer_question]: the
    encoding carries the ids and the two score rows it will be answered
    with, the vocabulary has a few words, and tokens are joined by spaces. *)

Module Toy.

Record encoding : Type := mkEncoding {
  enc_ids : list Z;
  enc_start_logits : list score;
  enc_end_logits : list score
}.

Definition vocab (id : Z) : string :=
  match id with
  | 101 => "[CLS]"
  | 102 => "[SEP]"
  | 1 => "who"
  | 2 => "elon"
  | 3 => "musk"
  | 4 => "and"
  | 5 => "sam"
  | 6 => "altman"
  | _ => "[UNK]"
  end%string.

Definition convert_ids_to_tokens (ids : list Z) : list string := map vocab ids.

Definition convert_tokens_to_string (tokens : list string) : string :=
  String.concat " " tokens.

Definition low : score := dec 1 10.
Definition high : score := dec 9 10.

(** "[CLS] who [SEP] elon musk and sam altman [SEP]", start peak on
    "elon", end peak on "altman". *)
Definition founders : encoding :=
  mkEncoding [101; 1; 102; 2; 3; 4; 5; 6; 102]
    [low; low; low; high; low; low; low; low; low]
    [low; low; low; low; low; low; low; high; low].

Definition tokenizer (question context : string) : encoding := founders.

Definition model (inputs : encoding) : list score * list score :=
  (enc_start_logits inputs, enc_end_logits inputs).

Definition answer_question : string -> string -> result string :=
  answer_question encoding tokenizer enc_ids model
    convert_ids_to_tokens convert_tokens_to_string.

End Toy.

(** ** The cell that runs the questions

<<
    for question in questions:
        print(f"Question: {question}")
        answer = answer_question(question, context)
        print(f"Answer: {answer}\n")
>>

    Standard output is the sequence of the texts handed to [print], one
    entry per call.  An exception of [answer_question] is not caught: it
    ends the loop, and what was printed before stays printed. *)

Section RunQuestions.

Variable batch_encoding : Type.
Variable tokenizer : string -> string -> batch_encoding.
Variable input_ids_of : batch_encoding -> list Z.
Variable model : batch_encoding -> list score * list score.
Variable convert_ids_to_tokens : list Z -> list string.
Variable convert_tokens_to_string : list string -> string.

Definition newline : string := String (Ascii.ascii_of_nat 10) EmptyString.

Definition print (text : string) (stdout : list string) : list string :=
  stdout ++ [text].

Definition question_line (question : string) : string :=
  ("Question: " ++ question)%string.

Definition answer_line (answer : string) : string :=
  ("Answer: " ++ answer ++ newline)%string.

Fixpoint run_questions (questions : list string) (context : string)
    (stdout : list string) : result unit * list string :=
  match questions with
  | [] => (Ok tt, stdout)
  | question :: rest =>
      let stdout := print (question_line question) stdout in
      match
        answer_question batch_encoding tokenizer input_ids_of model
          convert_ids_to_tokens convert_tokens_to_string question context
      with
      | Ok answer => run_questions rest context (print (answer_line answer) stdout)
      | Raise e => (Raise e, stdout)
      end
  end.

End RunQuestions.

(** What a run prints for questions that were all answered. *)
Fixpoint transcript (questions answers : list string) : list string :=
  match questions, answers with
  | question :: questions', answer :: answers' =>
      question_line question :: answer_line answer :: transcript questions' answers'
  | _, _ => []
  end.

(** ** Collaborators that can raise

    The tokenizer, the model and the two renderer calls are library code and
    can raise exceptions of their own (the model, for one, on a row longer
    than the 512 positions it was trained with).  Here each of them either
    returns or raises an exception of the abstract type [ext]; the
    notebook's lines are the same and catch nothing. *)

Module Fallible.

Inductive thrown (ext : Type) : Type :=
| Own (e : exn)
| Foreign (x : ext).
Arguments Own {ext} e.
Arguments Foreign {ext} x.

Inductive outcome (ext A : Type) : Type :=
| Returned (a : A)
| Thrown (t : thrown ext).
Arguments Returned {ext A} a.
Arguments Thrown {ext A} t.

Definition bind {ext A B : Type} (m : outcome ext A) (k : A -> outcome ext B)
  : outcome ext B :=
  match m with
  | Returned a => k a
  | Thrown t => Thrown t
  end.

(** A result of the embedded lines, as an outcome. *)
Definition own {ext A : Type} (r : result A) : outcome ext A :=
  match r with
  | Ok a => Returned a
  | Raise e => Thrown (Own e)
  end.

Section Collaborators.

Variable ext : Type.
Variable batch_encoding : Type.
Variable tokenizer : string -> string -> outcome ext batch_encoding.
Variable input_ids_of : batch_encoding -> list Z.
Variable model : batch_encoding -> outcome ext (list score * list score).
Variable convert_ids_to_tokens : list Z -> outcome ext (list string).
Variable convert_tokens_to_string : list string -> outcome ext string.

Definition answer_question (question context : string) : outcome ext string :=
  bind (tokenizer question context) (fun inputs =>
  let input_ids := input_ids_of inputs in
  bind (model inputs) (fun outputs =>
  let start_scores := fst outputs in
  let end_scores := snd outputs in
  bind (own (torch_argmax start_scores)) (fun start_index =>
  bind (own (i <- torch_argmax end_scores ;; Ok (i + 1))) (fun end_index =>
  bind (convert_ids_to_tokens (py_slice input_ids start_index end_index))
    (fun tokens =>
  convert_tokens_to_string tokens))))).

Fixpoint run_questions (questions : list string) (context : string)
    (stdout : list string) : outcome ext unit * list string :=
  match questions with
  | [] => (Returned tt, stdout)
  | question :: rest =>
      let stdout := print (question_line question) stdout in
      match answer_question question context with
      | Returned answer =>
          run_questions rest context (print (answer_line answer) stdout)
      | Thrown t => (Thrown t, stdout)
      end
  end.

End Collaborators.

End Fallible.

(** A toy model with a limit on the length of the row: the tokenizer puts
    one token per character of the question in front of the toy row, and the
    model refuses rows of more than sixteen positions. *)

Module ToyLimit.

Definition tokenizer (question context : string)
  : Fallible.outcome string Toy.encoding :=
  let pad := String.length question in
  Fallible.Returned
    (Toy.mkEncoding
       (repeat 1 pad ++ Toy.enc_ids Toy.founders)
       (repeat Toy.low pad ++ Toy.enc_start_logits Toy.founders)
       (repeat Toy.low pad ++ Toy.enc_end_logits Toy.founders)).

Definition model (inputs : Toy.encoding)
  : Fallible.outcome string (list score * list score) :=
  if (16 <? length (Toy.enc_ids inputs))%nat
  then Fallible.Thrown (Fallible.Foreign "row too long"%string)
  else Fallible.Returned (Toy.model inputs).

Definition convert_ids_to_tokens (ids : list Z)
  : Fallible.outcome string (list string) :=
  Fallible.Returned (Toy.convert_ids_to_tokens ids).

Definition convert_tokens_to_string (tokens : list string)
  : Fallible.outcome string string :=
  Fallible.Returned (Toy.convert_tokens_to_string tokens).

End ToyLimit.

(** ** Score rows used to state properties *)

(** The row of [n] scores that is 1 at position [i] and 0 elsewhere. *)
Definition peak_at (n i : nat) : list score :=
  map (fun k => if (k =? i)%nat then Fin 1 else Fin 0) (seq 0 n).

(** [torch.relu] on one score: the greater of the score and zero.  The
    operation is exact on floats (no rounding); NaN stays NaN. *)
Definition relu (a : score) : score :=
  match a with
  | NaN => NaN
  | NegInf => Fin 0
  | Fin q => if Qle_bool q 0 then Fin 0 else Fin q
  | PosInf => PosInf
  end.

(** * Properties *)

(** ** The order on scores *)

Lemma score_leb_le (a b : score) : score_leb a b = true <-> score_le a b.
Proof.
  destruct a as [| |p|], b as [| |q|];
    unfold score_leb, score_le, isnan, score_eqb, score_gtb;
    rewrite ?orb_false_l, ?orb_false_r, ?orb_true_l, ?orb_true_r;
    try tauto; try (split; [discriminate | contradiction]).
  rewrite orb_true_iff, negb_true_iff, Qeq_bool_iff.
  split.
  - intros [H|H].
    + rewrite H. apply Qle_refl.
    + apply Qlt_le_weak, Qnot_le_lt. intro Hle.
      apply Qle_bool_iff in Hle. congruence.
  - intro H. destruct (Qle_bool q p) eqn:E; [left | now right].
    apply Qle_bool_iff in E. now apply Qle_antisym.
Qed.

Lemma score_le_refl (a : score) : score_le a a.
Proof. destruct a; cbn; auto. apply Qle_refl. Qed.

Lemma score_le_trans (a b c : score) :
  score_le a b -> score_le b c -> score_le a c.
Proof.
  destruct a, b, c; cbn; try tauto. apply Qle_trans.
Qed.

Lemma score_le_total (a b : score) : score_le a b \/ score_le b a.
Proof.
  destruct a as [| |p|], b as [| |q|]; cbn; try tauto.
  destruct (Qlt_le_dec p q) as [H|H]; [left; now apply Qlt_le_weak | now right].
Qed.

Lemma score_leb_refl (a : score) : score_leb a a = true.
Proof. apply score_leb_le, score_le_refl. Qed.

Lemma score_leb_trans (a b c : score) :
  score_leb a b = true -> score_leb b c = true -> score_leb a c = true.
Proof. rewrite !score_leb_le. apply score_le_trans. Qed.

Lemma score_leb_total (a b : score) :
  score_leb a b = false -> score_leb b a = true.
Proof.
  intro H. apply score_leb_le.
  destruct (score_le_total a b) as [Hab|Hba]; [|exact Hba].
  apply score_leb_le in Hab. congruence.
Qed.

Lemma score_eqb_sym (a b : score) : score_eqb a b = score_eqb b a.
Proof.
  destruct a as [| |p|], b as [| |q|]; cbn; try reflexivity.
  destruct (Qeq_bool p q) eqn:E, (Qeq_bool q p) eqn:E'; try reflexivity.
  - apply Qeq_bool_iff in E. symmetry in E. apply Qeq_bool_iff in E. congruence.
  - apply Qeq_bool_iff in E'. symmetry in E'. apply Qeq_bool_iff in E'. congruence.
Qed.

(** With the accumulator at the lower index, the library's comparison is the
    order read backwards. *)
Lemma greater_or_nan_leb (a b : score) (ia ib : nat) :
  (ia < ib)%nat -> greater_or_nan a b ia ib = score_leb b a.
Proof.
  intro H. apply Nat.ltb_lt in H.
  unfold greater_or_nan, score_leb. rewrite H, (score_eqb_sym b a).
  destruct (isnan a) eqn:Ea.
  - destruct (isnan b); reflexivity.
  - destruct (score_eqb a b); reflexivity.
Qed.

(** ** The reduction finds the first maximal position *)

Lemma first_max_lt_length (l : list score) (i : nat) :
  first_max l i -> (i < length l)%nat.
Proof.
  intros (x & Hx & _). apply nth_error_Some. congruence.
Qed.

Lemma first_max_unique (l : list score) (i j : nat) :
  first_max l i -> first_max l j -> i = j.
Proof.
  intros (x & Hx & Hmax & Hfirst) (y & Hy & Hmax' & Hfirst').
  destruct (Nat.lt_trichotomy i j) as [Hlt | [Heq | Hgt]]; [exfalso | exact Heq | exfalso].
  - specialize (Hfirst' i x Hlt Hx). specialize (Hmax j y Hy). congruence.
  - specialize (Hfirst j y Hgt Hy). specialize (Hmax' i x Hx). congruence.
Qed.

Lemma nth_error_snoc (pre : list score) (x : score) (k : nat) (y : score) :
  nth_error (pre ++ [x]) k = Some y ->
  nth_error pre k = Some y \/ (k = length pre /\ y = x).
Proof.
  intro H. destruct (Nat.lt_ge_cases k (length pre)) as [Hk | Hk].
  - left. now rewrite nth_error_app1 in H.
  - right. rewrite nth_error_app2 in H by exact Hk.
    destruct (k - length pre)%nat as [|d] eqn:E; cbn in H.
    + split; [lia | congruence].
    + destruct d; discriminate.
Qed.

(** Invariant of the scan: [pre] is what has been consumed, and the
    accumulator is the first maximal position of [pre]. *)
Lemma argmax_scan_first_max (l pre : list score) (best : score) (bi : nat) :
  nth_error pre bi = Some best ->
  (forall k y, nth_error pre k = Some y -> score_leb y best = true) ->
  (forall k y, (k < bi)%nat -> nth_error pre k = Some y -> score_leb best y = false) ->
  first_max (pre ++ l) (argmax_scan best bi (length pre) l).
Proof.
  revert pre best bi.
  induction l as [|x l IH]; intros pre best bi Hbest Hmax Hfirst.
  - rewrite app_nil_r. cbn. exists best. auto.
  - assert (Hbi : (bi < length pre)%nat) by (apply nth_error_Some; congruence).
    cbn [argmax_scan]. rewrite greater_or_nan_leb by exact Hbi.
    replace (pre ++ x :: l) with ((pre ++ [x]) ++ l) by (now rewrite <- app_assoc).
    replace (S (length pre)) with (length (pre ++ [x]))
      by (rewrite length_app; cbn; lia).
    destruct (score_leb x best) eqn:Hx.
    + apply IH.
      * now rewrite nth_error_app1.
      * intros k y Hk. apply nth_error_snoc in Hk as [Hk | [_ ->]]; eauto.
      * intros k y Hlt Hk. apply nth_error_snoc in Hk as [Hk | [-> _]]; [eauto | lia].
    + apply (IH (pre ++ [x]) x (length pre)).
      * rewrite nth_error_app2 by lia. now rewrite Nat.sub_diag.
      * intros k y Hk. apply nth_error_snoc in Hk as [Hk | [_ ->]].
        -- apply score_leb_trans with best; [eauto | now apply score_leb_total].
        -- apply score_leb_refl.
      * intros k y Hlt Hk.
        apply nth_error_snoc in Hk as [Hk | [-> _]]; [| lia].
        destruct (score_leb x y) eqn:Hxy; [| reflexivity].
        rewrite (score_leb_trans x y best Hxy (Hmax k y Hk)) in Hx. discriminate.
Qed.

Lemma argmax_pos_first_max (l : list score) (i : nat) :
  argmax_pos l = Some i <-> first_max l i.
Proof.
  assert (Hfwd : forall j, argmax_pos l = Some j -> first_max l j).
  { intros j H. destruct l as [|x l]; [discriminate|].
    cbn in H. injection H as <-.
    apply (argmax_scan_first_max l [x] x 0).
    - reflexivity.
    - intros [|[|k]] y Hk; cbn in Hk; try discriminate.
      injection Hk as <-. apply score_leb_refl.
    - intros k y Hk. lia. }
  split; [apply Hfwd|].
  intro H. destruct (argmax_pos l) as [j|] eqn:E.
  - f_equal. apply (first_max_unique l); auto.
  - destruct l; [|discriminate].
    apply first_max_lt_length in H. cbn in H. lia.
Qed.

Lemma argmax_pos_lt_length (l : list score) (i : nat) :
  argmax_pos l = Some i -> (i < length l)%nat.
Proof. intro H. now apply first_max_lt_length, argmax_pos_first_max. Qed.

Lemma argmax_pos_nonempty (l : list score) :
  l <> [] -> exists i, argmax_pos l = Some i.
Proof. destruct l; [congruence | cbn; eauto]. Qed.

Lemma argmax_pos_none (l : list score) : argmax_pos l = None <-> l = [].
Proof. destruct l; cbn; split; congruence. Qed.

(** The extractor in closed form. *)
Lemma extract_span_eq (ids : list Z) (ss es : list score) :
  extract_span ids ss es =
  match argmax_pos ss, argmax_pos es with
  | Some i, Some j => Ok (Z.of_nat i, Z.of_nat j + 1)
  | _, _ => Raise ArgmaxOfEmpty
  end.
Proof.
  unfold extract_span, torch_argmax.
  destruct (argmax_pos ss), (argmax_pos es); reflexivity.
Qed.

Lemma answer_ids_eq (ids : list Z) (ss es : list score) :
  answer_ids ids ss es =
  (span <- extract_span ids ss es ;; Ok (py_slice ids (fst span) (snd span))).
Proof.
  unfold answer_ids, extract_span.
  destruct (torch_argmax ss), (torch_argmax es); reflexivity.
Qed.

Lemma extract_span_nonempty (ids : list Z) (ss es : list score) :
  ss <> [] -> es <> [] ->
  exists i j, argmax_pos ss = Some i /\ argmax_pos es = Some j /\
              extract_span ids ss es = Ok (Z.of_nat i, Z.of_nat j + 1).
Proof.
  intros Hss Hes.
  destruct (argmax_pos_nonempty ss Hss) as [i Hi].
  destruct (argmax_pos_nonempty es Hes) as [j Hj].
  exists i, j. now rewrite extract_span_eq, Hi, Hj.
Qed.

Lemma extract_span_ok_inv (ids : list Z) (ss es : list score) (s e : Z) :
  extract_span ids ss es = Ok (s, e) ->
  exists i j, argmax_pos ss = Some i /\ argmax_pos es = Some j /\
              s = Z.of_nat i /\ e = Z.of_nat j + 1.
Proof.
  rewrite extract_span_eq.
  destruct (argmax_pos ss) as [i|], (argmax_pos es) as [j|]; try discriminate.
  intro H. injection H as <- <-. exists i, j. auto.
Qed.

(** ** Python slices *)

Lemma adjust_index_in_range (len i : Z) :
  0 <= i <= len -> adjust_index len i = i.
Proof.
  intro H. unfold adjust_index.
  destruct (Z.ltb_spec i 0); lia.
Qed.

Lemma py_slice_in_range {A : Type} (l : list A) (start stop : Z) :
  0 <= start <= Z.of_nat (length l) ->
  0 <= stop <= Z.of_nat (length l) ->
  py_slice l start stop =
  firstn (Z.to_nat (stop - start)) (skipn (Z.to_nat start) l).
Proof.
  intros Hs He. unfold py_slice.
  now rewrite !adjust_index_in_range.
Qed.

(** A slice whose start is not below its stop is empty, whatever the length
    of the list. *)
Lemma py_slice_empty {A : Type} (l : list A) (start stop : Z) :
  0 <= stop <= start -> py_slice l start stop = [].
Proof.
  intro H. unfold py_slice, adjust_index.
  destruct (Z.ltb_spec start 0), (Z.ltb_spec stop 0); try lia.
  replace (Z.to_nat _) with 0%nat by lia. reflexivity.
Qed.

(** With bounds that are not negative, only the positions from [start] up to
    [stop] are read. *)
Lemma py_slice_ext {A : Type} (l l' : list A) (start stop : Z) :
  length l' = length l ->
  0 <= start -> 0 <= stop ->
  (forall k, start <= Z.of_nat k < stop -> nth_error l' k = nth_error l k) ->
  py_slice l' start stop = py_slice l start stop.
Proof.
  intros Hlen Hs He Hagree. unfold py_slice. rewrite Hlen.
  set (len := Z.of_nat (length l)).
  assert (Hlen0 : 0 <= len) by (subst len; lia).
  assert (Hlo : adjust_index len start = Z.min start len).
  { unfold adjust_index. destruct (Z.ltb_spec start 0); lia. }
  assert (Hhi : adjust_index len stop <= Z.min stop len).
  { unfold adjust_index. destruct (Z.ltb_spec stop 0); lia. }
  rewrite Hlo.
  apply nth_error_ext. intro n.
  rewrite !nth_error_firstn, !nth_error_skipn.
  destruct (Nat.ltb_spec n (Z.to_nat (adjust_index len stop - Z.min start len)));
    [| reflexivity].
  apply Hagree. lia.
Qed.

(** ** Degenerate spans *)

Example degenerate_example :
  extract_span [101; 102; 103]
    [dec 1 10; dec 2 10; dec 9 10] [dec 9 10; dec 2 10; dec 1 10] = Ok (2, 1).
Proof. reflexivity. Qed.

Example equal_peaks_example :
  extract_span [101; 102] [dec 1 10; dec 9 10] [dec 1 10; dec 9 10] = Ok (1, 2) /\
  answer_ids [101; 102] [dec 1 10; dec 9 10] [dec 1 10; dec 9 10] = Ok [102].
Proof. split; reflexivity. Qed.

(** C1, as stated, fails: when the end peak is AT the start peak (here both
    at position 1 of two tokens) the pair returned is (1, 2), which is
    neither inverted nor degenerate, and the slice holds one token. *)
Lemma degenerate_at_or_before_counterexample :
  ~ (forall (ids : list Z) (ss es : list score) (i j : nat),
        argmax_pos ss = Some i -> argmax_pos es = Some j -> (j <= i)%nat ->
        extract_span ids ss es = Ok (Z.of_nat i, Z.of_nat j + 1) /\
        Z.of_nat j + 1 <= Z.of_nat i /\
        answer_ids ids ss es = Ok []).
Proof.
  intro H.
  destruct (H [101; 102] [dec 1 10; dec 9 10] [dec 1 10; dec 9 10] 1%nat 1%nat
              eq_refl eq_refl (le_n 1)) as (_ & Hinv & _).
  cbn in Hinv. lia.
Qed.

(** C1 (amended): the pair of argmaxes is returned as it is, with no check
    that the start is below the end and without raising.  Whenever the first
    argmax of the end scores is STRICTLY before the first argmax of the start
    scores, the pair returned is the inverted or empty one (start >= end),
    and the slice taken with it is empty. *)
Theorem extract_span_degenerate (ids : list Z) (ss es : list score) (i j : nat) :
  argmax_pos ss = Some i -> argmax_pos es = Some j ->
  extract_span ids ss es = Ok (Z.of_nat i, Z.of_nat j + 1) /\
  ((j < i)%nat ->
   Z.of_nat j + 1 <= Z.of_nat i /\ answer_ids ids ss es = Ok []).
Proof.
  intros Hi Hj.
  assert (Hspan : extract_span ids ss es = Ok (Z.of_nat i, Z.of_nat j + 1))
    by (now rewrite extract_span_eq, Hi, Hj).
  split; [exact Hspan |].
  intro Hlt. split; [lia |].
  rewrite answer_ids_eq, Hspan. cbn [bind fst snd].
  f_equal. apply py_slice_empty. lia.
Qed.

Lemma extract_span_degenerate_witness :
  extract_span [101; 102; 103]
    [dec 1 10; dec 2 10; dec 9 10] [dec 9 10; dec 2 10; dec 1 10] = Ok (2, 1) /\
  answer_ids [101; 102; 103]
    [dec 1 10; dec 2 10; dec 9 10] [dec 9 10; dec 2 10; dec 1 10] = Ok [].
Proof.
  destruct (extract_span_degenerate [101; 102; 103]
              [dec 1 10; dec 2 10; dec 9 10] [dec 9 10; dec 2 10; dec 1 10]
              2%nat 0%nat eq_refl eq_refl) as (Hspan & Hdeg).
  split; [exact Hspan |].
  apply Hdeg. lia.
Defined.

(** ** Failures *)

Example mismatched_lengths_example :
  extract_span [101; 102; 103; 104; 105]
    [dec 1 10; dec 9 10; dec 2 10; dec 3 10]
    [dec 1 10; dec 2 10; dec 9 10; dec 3 10; dec 4 10] = Ok (1, 3).
Proof. reflexivity. Qed.

Example no_token_example :
  extract_span [] [dec 1 10] [dec 1 10] = Ok (0, 1).
Proof. reflexivity. Qed.

(** C2, as stated, fails: with five token ids, four start scores and five
    end scores the lengths disagree and yet nothing is raised. *)
Lemma invalid_input_counterexample :
  ~ (forall (ids : list Z) (ss es : list score),
        raised (extract_span ids ss es) = true <->
        (length ids = 0%nat \/
         ~ (length ss = length ids /\ length es = length ids))).
Proof.
  intro H.
  destruct (H [101; 102; 103; 104; 105]
              [dec 1 10; dec 9 10; dec 2 10; dec 3 10]
              [dec 1 10; dec 2 10; dec 9 10; dec 3 10; dec 4 10]) as [_ Hraise].
  cbn in Hraise.
  assert (Hf : false = true) by (apply Hraise; right; intros [Hlen _]; discriminate).
  discriminate.
Qed.

(** C2 (amended): the extractor checks no length and has no error of its
    own.  It fails exactly when [start_scores] or [end_scores] is empty,
    with the numeric library's refusal to take the argmax of nothing; on
    every other input, whatever [token_ids] is and whether or not the three
    lengths agree, it returns a pair. *)
Theorem extract_span_raises_iff (ids : list Z) (ss es : list score) :
  (extract_span ids ss es = Raise ArgmaxOfEmpty <-> ss = [] \/ es = []) /\
  ((exists s e, extract_span ids ss es = Ok (s, e)) <-> ss <> [] /\ es <> []).
Proof.
  rewrite extract_span_eq.
  destruct (argmax_pos ss) as [i|] eqn:Hi, (argmax_pos es) as [j|] eqn:Hj.
  - assert (ss <> []) by (intros ->; discriminate).
    assert (es <> []) by (intros ->; discriminate).
    split; split; try tauto; try discriminate. eauto.
  - apply argmax_pos_none in Hj.
    split; split; try tauto. intros (s & e & He). discriminate.
  - apply argmax_pos_none in Hi.
    split; split; try tauto. intros (s & e & He). discriminate.
  - apply argmax_pos_none in Hi.
    split; split; try tauto. intros (s & e & He). discriminate.
Qed.

(** ** Bounds *)

(** C3: for every N >= 1 and every two score vectors of length N the
    extractor returns a pair with [0 <= start < N] and [0 < end <= N]. *)
Theorem extract_span_in_bounds (ids : list Z) (ss es : list score) (N : nat) :
  (1 <= N)%nat -> length ss = N -> length es = N ->
  exists s e, extract_span ids ss es = Ok (s, e) /\
              0 <= s < Z.of_nat N /\ 0 < e <= Z.of_nat N.
Proof.
  intros HN Hss Hes.
  destruct (argmax_pos_nonempty ss) as [i Hi]; [intros ->; cbn in Hss; lia |].
  destruct (argmax_pos_nonempty es) as [j Hj]; [intros ->; cbn in Hes; lia |].
  exists (Z.of_nat i), (Z.of_nat j + 1).
  rewrite extract_span_eq, Hi, Hj.
  apply argmax_pos_lt_length in Hi, Hj.
  split; [reflexivity | lia].
Qed.

Lemma extract_span_in_bounds_witness :
  exists s e,
    extract_span [101; 102; 103]
      [dec 1 10; dec 2 10; dec 9 10] [dec 9 10; dec 2 10; dec 1 10] = Ok (s, e) /\
    0 <= s < 3 /\ 0 < e <= 3.
Proof.
  apply (extract_span_in_bounds [101; 102; 103]
           [dec 1 10; dec 2 10; dec 9 10] [dec 9 10; dec 2 10; dec 1 10] 3).
  - lia.
  - reflexivity.
  - reflexivity.
Defined.

(** ** Argmax and its tie-break *)

Example tie_break_example :
  torch_argmax [dec 1 10; dec 9 10; dec 9 10; dec 2 10] = Ok 1.
Proof. reflexivity. Qed.

Example nan_ranks_first_example :
  torch_argmax [dec 1 10; NaN; PosInf; NaN] = Ok 1.
Proof. reflexivity. Qed.

(** C4: [start_index] is the argmax of [start_scores] and
    [end_index_exclusive] is the argmax of [end_scores] plus one, where the
    argmax is the FIRST position holding a maximal score: no score anywhere
    is above it and every score before it is strictly below. *)
Theorem extract_span_first_max (ids : list Z) (ss es : list score) :
  ss <> [] -> es <> [] ->
  exists i j, extract_span ids ss es = Ok (Z.of_nat i, Z.of_nat j + 1) /\
              first_max ss i /\ first_max es j.
Proof.
  intros Hss Hes.
  destruct (extract_span_nonempty ids ss es Hss Hes) as (i & j & Hi & Hj & Hspan).
  exists i, j. repeat split; [exact Hspan | |]; now apply argmax_pos_first_max.
Qed.

Lemma extract_span_first_max_witness :
  exists e,
    extract_span [101; 102; 103; 104]
      [dec 1 10; dec 9 10; dec 9 10; dec 2 10]
      [dec 1 10; dec 2 10; dec 9 10; dec 9 10] = Ok (1, e).
Proof.
  destruct (extract_span_first_max [101; 102; 103; 104]
              [dec 1 10; dec 9 10; dec 9 10; dec 2 10]
              [dec 1 10; dec 2 10; dec 9 10; dec 9 10])
    as (i & j & Hspan & Hi & _).
  - discriminate.
  - discriminate.
  - apply argmax_pos_first_max in Hi. cbn in Hi. injection Hi as <-.
    exists (Z.of_nat j + 1). exact Hspan.
Defined.

(** ** The range of a produced span *)

(** C5, as stated, fails: on three tokens with the start peak at position 2
    and the end peak at position 0 the span produced is (2, 1). *)
Lemma answer_span_nonempty_counterexample :
  ~ (forall (ids : list Z) (ss es : list score) (s e : Z),
        length ss = length ids -> length es = length ids ->
        extract_span ids ss es = Ok (s, e) ->
        0 <= s < e /\ e <= Z.of_nat (length ids)).
Proof.
  intro H.
  destruct (H [101; 102; 103]
              [dec 1 10; dec 2 10; dec 9 10] [dec 9 10; dec 2 10; dec 1 10]
              2 1 eq_refl eq_refl eq_refl) as [Hlt _].
  lia.
Qed.

(** C5 (amended): every span produced over N tokens is a pair with
    [0 <= start < N] and [0 < end <= N]; it is a non-empty half-open range
    ([start < end]) exactly when the first argmax of the end scores is not
    before the first argmax of the start scores. *)
Theorem answer_span_range (ids : list Z) (ss es : list score) (s e : Z) :
  length ss = length ids -> length es = length ids ->
  extract_span ids ss es = Ok (s, e) ->
  0 <= s < Z.of_nat (length ids) /\
  0 < e <= Z.of_nat (length ids) /\
  (forall i j, first_max ss i -> first_max es j -> (s < e <-> (i <= j)%nat)).
Proof.
  intros Hss Hes Hspan.
  destruct (extract_span_ok_inv ids ss es s e Hspan) as (i & j & Hi & Hj & -> & ->).
  pose proof (argmax_pos_lt_length ss i Hi) as Hilt.
  pose proof (argmax_pos_lt_length es j Hj) as Hjlt.
  split; [lia | split; [lia |]].
  intros i' j' Hi' Hj'.
  apply argmax_pos_first_max in Hi', Hj'.
  assert (i' = i) by congruence. assert (j' = j) by congruence. lia.
Qed.

Lemma answer_span_range_witness :
  0 <= 2 < 3 /\ 0 < 1 <= 3 /\
  (forall i j,
      first_max [dec 1 10; dec 2 10; dec 9 10] i ->
      first_max [dec 9 10; dec 2 10; dec 1 10] j ->
      (2 < 1 <-> (i <= j)%nat)).
Proof.
  apply (answer_span_range [101; 102; 103]
           [dec 1 10; dec 2 10; dec 9 10] [dec 9 10; dec 2 10; dec 1 10] 2 1).
  - reflexivity.
  - reflexivity.
  - reflexivity.
Defined.

(** ** The answer text *)

Example end_to_end_example :
  Toy.answer_question "who founded it?" "elon musk and sam altman"
  = Ok "elon musk and sam altman"%string.
Proof. reflexivity. Qed.

(** C6: the answer returned by [answer_question] is the rendering of the
    slice [input_ids[start_index:end_index_exclusive]] for the pair that the
    span extractor computes on the model's scores (and the call raises what
    the extractor raises).  With score rows as long as the token row that
    slice is the [end - start] tokens from position [start] on, and token
    rows of that length that agree on the positions of the span give the
    same slice: no other token contributes. *)
Theorem answer_question_renders_span
    (batch_encoding : Type)
    (tokenizer : string -> string -> batch_encoding)
    (input_ids_of : batch_encoding -> list Z)
    (model : batch_encoding -> list score * list score)
    (convert_ids_to_tokens : list Z -> list string)
    (convert_tokens_to_string : list string -> string)
    (question context : string) :
  let inputs := tokenizer question context in
  let ids := input_ids_of inputs in
  let ss := fst (model inputs) in
  let es := snd (model inputs) in
  answer_question batch_encoding tokenizer input_ids_of model
    convert_ids_to_tokens convert_tokens_to_string question context =
  (span <- extract_span ids ss es ;;
   Ok (convert_tokens_to_string
         (convert_ids_to_tokens (py_slice ids (fst span) (snd span))))) /\
  (forall s e, extract_span ids ss es = Ok (s, e) ->
     (length ss = length ids -> length es = length ids ->
      py_slice ids s e = firstn (Z.to_nat (e - s)) (skipn (Z.to_nat s) ids)) /\
     (forall ids', length ids' = length ids ->
        (forall k, s <= Z.of_nat k < e -> nth_error ids' k = nth_error ids k) ->
        py_slice ids' s e = py_slice ids s e)).
Proof.
  intros inputs ids ss es. split.
  - unfold answer_question, extract_span. fold inputs. fold ids. fold ss. fold es.
    destruct (torch_argmax ss), (torch_argmax es); reflexivity.
  - intros s e Hspan.
    destruct (extract_span_ok_inv ids ss es s e Hspan) as (i & j & Hi & Hj & -> & ->).
    split.
    + intros Hss Hes.
      apply argmax_pos_lt_length in Hi, Hj.
      apply py_slice_in_range; lia.
    + intros ids' Hlen Hagree. apply py_slice_ext; auto; lia.
Qed.

(** ** A single token *)

(** C8: with one token the pair is (0, 1), whatever the two scores are. *)
Theorem extract_span_single_token (ids : list Z) (ss es : list score) :
  length ss = 1%nat -> length es = 1%nat ->
  extract_span ids ss es = Ok (0, 1).
Proof.
  intros Hss Hes.
  destruct ss as [|x [|? ?]]; try discriminate.
  destruct es as [|y [|? ?]]; try discriminate.
  reflexivity.
Qed.

Lemma extract_span_single_token_witness :
  extract_span [101] [NaN] [dec 3 10] = Ok (0, 1).
Proof.
  apply (extract_span_single_token [101] [NaN] [dec 3 10]).
  - reflexivity.
  - reflexivity.
Defined.

(** ** Independence from the token ids *)

(** C9: the pair depends on the two score vectors only.  Two token rows of
    the same length, with the same scores, give the same pair, and what is
    rendered from them is taken at the same positions of the two rows: the
    same number [n] of tokens from the same offset [lo] on.  The token ids
    decide which tokens are rendered, never where they are taken. *)
Theorem span_positions_ignore_token_ids (ids ids' : list Z) (ss es : list score) :
  length ids = length ids' ->
  extract_span ids ss es = extract_span ids' ss es /\
  (forall toks, answer_ids ids ss es = Ok toks ->
     exists toks' lo n,
       answer_ids ids' ss es = Ok toks' /\
       toks = firstn n (skipn lo ids) /\
       toks' = firstn n (skipn lo ids') /\
       length toks' = length toks) /\
  (forall e, answer_ids ids ss es = Raise e -> answer_ids ids' ss es = Raise e).
Proof.
  intro Hlen. split; [reflexivity |].
  rewrite !answer_ids_eq.
  change (extract_span ids' ss es) with (extract_span ids ss es).
  destruct (extract_span ids ss es) as [[s e] | err]; cbn [bind fst snd].
  - split; [| discriminate].
    intros toks Htoks. injection Htoks as <-.
    unfold py_slice. rewrite <- Hlen.
    set (lo := Z.to_nat (adjust_index (Z.of_nat (length ids)) s)).
    set (n := Z.to_nat (adjust_index (Z.of_nat (length ids)) e -
                        adjust_index (Z.of_nat (length ids)) s)).
    exists (firstn n (skipn lo ids')), lo, n.
    repeat split.
    now rewrite !length_firstn, !length_skipn, Hlen.
  - split; [discriminate |]. intros e H. exact H.
Qed.

Lemma span_positions_ignore_token_ids_witness :
  extract_span [101; 7; 102] [dec 1 10; dec 9 10; dec 2 10] [dec 1 10; dec 2 10; dec 9 10]
  = extract_span [101; 8; 102] [dec 1 10; dec 9 10; dec 2 10] [dec 1 10; dec 2 10; dec 9 10] /\
  (forall toks,
     answer_ids [101; 7; 102] [dec 1 10; dec 9 10; dec 2 10]
       [dec 1 10; dec 2 10; dec 9 10] = Ok toks ->
     exists toks' lo n,
       answer_ids [101; 8; 102] [dec 1 10; dec 9 10; dec 2 10]
         [dec 1 10; dec 2 10; dec 9 10] = Ok toks' /\
       toks = firstn n (skipn lo [101; 7; 102]) /\
       toks' = firstn n (skipn lo [101; 8; 102]) /\
       length toks' = length toks) /\
  (forall e,
     answer_ids [101; 7; 102] [dec 1 10; dec 9 10; dec 2 10]
       [dec 1 10; dec 2 10; dec 9 10] = Raise e ->
     answer_ids [101; 8; 102] [dec 1 10; dec 9 10; dec 2 10]
       [dec 1 10; dec 2 10; dec 9 10] = Raise e).
Proof.
  apply (span_positions_ignore_token_ids [101; 7; 102] [101; 8; 102]).
  reflexivity.
Defined.

(** ** When the span is not degenerate *)

(** C10: for non-empty score vectors, with [i] the first argmax of the start
    scores and [j] the first argmax of the end scores, the pair returned has
    [start < end] if and only if [j] is not before [i]. *)
Theorem extract_span_nondegenerate_iff (ids : list Z) (ss es : list score) :
  ss <> [] -> es <> [] ->
  exists i j s e,
    first_max ss i /\ first_max es j /\
    extract_span ids ss es = Ok (s, e) /\
    (s < e <-> (i <= j)%nat).
Proof.
  intros Hss Hes.
  destruct (extract_span_nonempty ids ss es Hss Hes) as (i & j & Hi & Hj & Hspan).
  exists i, j, (Z.of_nat i), (Z.of_nat j + 1).
  repeat split; try (now apply argmax_pos_first_max); try exact Hspan; lia.
Qed.

Lemma extract_span_nondegenerate_iff_witness :
  exists i j s e,
    first_max [dec 1 10; dec 9 10] i /\ first_max [dec 1 10; dec 9 10] j /\
    extract_span [101; 102] [dec 1 10; dec 9 10] [dec 1 10; dec 9 10] = Ok (s, e) /\
    (s < e <-> (i <= j)%nat).
Proof.
  apply (extract_span_nondegenerate_iff [101; 102]
           [dec 1 10; dec 9 10] [dec 1 10; dec 9 10]).
  - discriminate.
  - discriminate.
Defined.

(** * Further properties of the code *)

(** ** The tokens handed to the renderer *)

Lemma firstn_skipn_infix {A : Type} (l : list A) (n lo : nat) :
  exists pre post, l = pre ++ firstn n (skipn lo l) ++ post.
Proof.
  exists (firstn lo l), (skipn n (skipn lo l)).
  now rewrite (firstn_skipn n), (firstn_skipn lo).
Qed.

Lemma py_slice_infix {A : Type} (l : list A) (start stop : Z) :
  exists pre post, l = pre ++ py_slice l start stop ++ post.
Proof. unfold py_slice. apply firstn_skipn_infix. Qed.

Lemma answer_ids_in_range (ids : list Z) (ss es : list score) (i j : nat) :
  length ss = length ids -> length es = length ids ->
  argmax_pos ss = Some i -> argmax_pos es = Some j ->
  answer_ids ids ss es = Ok (firstn (S j - i) (skipn i ids)).
Proof.
  intros Hss Hes Hi Hj.
  rewrite answer_ids_eq, extract_span_eq, Hi, Hj. cbn [bind fst snd].
  apply argmax_pos_lt_length in Hi, Hj.
  rewrite py_slice_in_range by lia.
  replace (Z.to_nat (Z.of_nat j + 1 - Z.of_nat i)) with (S j - i)%nat by lia.
  now rewrite Nat2Z.id.
Qed.

Lemma length_firstn_skipn_span (ids : list Z) (i j : nat) :
  (i < length ids)%nat -> (j < length ids)%nat ->
  length (firstn (S j - i) (skipn i ids)) = (S j - i)%nat.
Proof.
  intros Hi Hj. rewrite length_firstn, length_skipn. lia.
Qed.

(** The number of tokens rendered is [end - start], or none when the pair
    is inverted. *)
Theorem answer_ids_length (ids : list Z) (ss es : list score) (s e : Z) :
  length ss = length ids -> length es = length ids ->
  extract_span ids ss es = Ok (s, e) ->
  exists toks, answer_ids ids ss es = Ok toks /\
               Z.of_nat (length toks) = Z.max 0 (e - s).
Proof.
  intros Hss Hes Hspan.
  destruct (extract_span_ok_inv ids ss es s e Hspan) as (i & j & Hi & Hj & -> & ->).
  exists (firstn (S j - i) (skipn i ids)).
  split; [now apply answer_ids_in_range |].
  apply argmax_pos_lt_length in Hi, Hj.
  rewrite length_firstn_skipn_span by lia. lia.
Qed.

Lemma answer_ids_length_witness :
  exists toks,
    answer_ids [101; 7; 8; 9; 102]
      [dec 1 10; dec 9 10; dec 2 10; dec 1 10; dec 1 10]
      [dec 1 10; dec 2 10; dec 3 10; dec 9 10; dec 1 10] = Ok toks /\
    Z.of_nat (length toks) = Z.max 0 (4 - 1).
Proof.
  apply (answer_ids_length [101; 7; 8; 9; 102]
           [dec 1 10; dec 9 10; dec 2 10; dec 1 10; dec 1 10]
           [dec 1 10; dec 2 10; dec 3 10; dec 9 10; dec 1 10] 1 4).
  - reflexivity.
  - reflexivity.
  - reflexivity.
Defined.

(** The [k]-th token rendered is the token at position [start + k] of the
    row: the answer runs from the start peak to the end peak, the end peak
    included. *)
Theorem answer_ids_nth (ids : list Z) (ss es : list score) (i j k : nat) :
  length ss = length ids -> length es = length ids ->
  argmax_pos ss = Some i -> argmax_pos es = Some j ->
  (i + k <= j)%nat ->
  exists toks, answer_ids ids ss es = Ok toks /\
               nth_error toks k = nth_error ids (i + k) /\
               nth_error toks (j - i) = nth_error ids j /\
               nth_error toks (S (j - i)) = None.
Proof.
  intros Hss Hes Hi Hj Hk.
  exists (firstn (S j - i) (skipn i ids)).
  split; [now apply answer_ids_in_range |].
  apply argmax_pos_lt_length in Hi, Hj.
  rewrite !nth_error_firstn, !nth_error_skipn.
  destruct (Nat.ltb_spec k (S j - i)); [| lia].
  destruct (Nat.ltb_spec (j - i) (S j - i)); [| lia].
  destruct (Nat.ltb_spec (S (j - i)) (S j - i)); [lia |].
  repeat split. f_equal. lia.
Qed.

Lemma answer_ids_nth_witness :
  exists toks,
    answer_ids [101; 7; 8; 9; 102]
      [dec 1 10; dec 9 10; dec 2 10; dec 1 10; dec 1 10]
      [dec 1 10; dec 2 10; dec 3 10; dec 9 10; dec 1 10] = Ok toks /\
    nth_error toks 1 = Some 8 /\
    nth_error toks 2 = Some 9 /\
    nth_error toks 3 = None.
Proof.
  apply (answer_ids_nth [101; 7; 8; 9; 102]
           [dec 1 10; dec 9 10; dec 2 10; dec 1 10; dec 1 10]
           [dec 1 10; dec 2 10; dec 3 10; dec 9 10; dec 1 10] 1 3 1).
  - reflexivity.
  - reflexivity.
  - reflexivity.
  - reflexivity.
  - lia.
Defined.

(** The tokens rendered are a contiguous stretch of the token row, in the
    order of the row, whatever the lengths of the three sequences. *)
Theorem answer_ids_infix (ids : list Z) (ss es : list score) (toks : list Z) :
  answer_ids ids ss es = Ok toks ->
  exists pre post, ids = pre ++ toks ++ post.
Proof.
  rewrite answer_ids_eq.
  destruct (extract_span ids ss es) as [[s e] | err]; [| discriminate].
  cbn [bind fst snd]. intro H. injection H as <-.
  apply py_slice_infix.
Qed.

Lemma answer_ids_infix_witness :
  exists pre post, [101; 7; 8; 9; 102] = pre ++ [7; 8; 9] ++ post.
Proof.
  apply (answer_ids_infix [101; 7; 8; 9; 102]
           [dec 1 10; dec 9 10; dec 2 10; dec 1 10; dec 1 10]
           [dec 1 10; dec 2 10; dec 3 10; dec 9 10; dec 1 10]).
  reflexivity.
Defined.

(** With score rows as long as the token row, no token is rendered exactly
    when the first argmax of the end scores is strictly before the first
    argmax of the start scores. *)
Theorem answer_ids_empty_iff (ids : list Z) (ss es : list score) (i j : nat) :
  length ss = length ids -> length es = length ids ->
  argmax_pos ss = Some i -> argmax_pos es = Some j ->
  (answer_ids ids ss es = Ok [] <-> (j < i)%nat).
Proof.
  intros Hss Hes Hi Hj.
  rewrite (answer_ids_in_range ids ss es i j Hss Hes Hi Hj).
  apply argmax_pos_lt_length in Hi, Hj.
  pose proof (length_firstn_skipn_span ids i j ltac:(lia) ltac:(lia)) as Hlen.
  split.
  - intro H.
    assert (Hnil : firstn (S j - i) (skipn i ids) = []) by congruence.
    rewrite Hnil in Hlen. cbn [length] in Hlen. lia.
  - intro Hlt. f_equal. apply length_zero_iff_nil. lia.
Qed.

Lemma answer_ids_empty_iff_witness :
  answer_ids [101; 102; 103]
    [dec 1 10; dec 2 10; dec 9 10] [dec 9 10; dec 2 10; dec 1 10] = Ok [] <->
  (0 < 2)%nat.
Proof.
  apply (answer_ids_empty_iff [101; 102; 103]
           [dec 1 10; dec 2 10; dec 9 10] [dec 9 10; dec 2 10; dec 1 10] 2 0).
  - reflexivity.
  - reflexivity.
  - reflexivity.
  - reflexivity.
Defined.

(** A start peak at or beyond the end of the token row (score rows longer
    than the token row) is clipped by the slice: nothing is raised and no
    token is rendered. *)
Theorem answer_ids_start_beyond_row (ids : list Z) (ss es : list score) (i : nat) :
  argmax_pos ss = Some i -> es <> [] -> (length ids <= i)%nat ->
  answer_ids ids ss es = Ok [].
Proof.
  intros Hi Hes Hlen.
  destruct (argmax_pos_nonempty es Hes) as [j Hj].
  rewrite answer_ids_eq, extract_span_eq, Hi, Hj. cbn [bind fst snd].
  f_equal. unfold py_slice, adjust_index.
  destruct (Z.ltb_spec (Z.of_nat i) 0), (Z.ltb_spec (Z.of_nat j + 1) 0); try lia.
  replace (Z.to_nat (Z.min (Z.of_nat j + 1) (Z.of_nat (length ids)) -
                     Z.min (Z.of_nat i) (Z.of_nat (length ids)))) with 0%nat by lia.
  reflexivity.
Qed.

Lemma answer_ids_start_beyond_row_witness :
  answer_ids [101; 102]
    [dec 1 10; dec 2 10; dec 9 10] [dec 1 10; dec 2 10; dec 9 10] = Ok [].
Proof.
  apply (answer_ids_start_beyond_row [101; 102]
           [dec 1 10; dec 2 10; dec 9 10] [dec 1 10; dec 2 10; dec 9 10] 2).
  - reflexivity.
  - discriminate.
  - cbn. lia.
Defined.

(** ** More on the argmax *)

(** A NaN among the scores wins: the argmax is the position of the first
    NaN, whatever the other scores are. *)
Theorem argmax_pos_first_nan (l : list score) (i : nat) :
  nth_error l i = Some NaN ->
  (forall k, (k < i)%nat -> nth_error l k <> Some NaN) ->
  argmax_pos l = Some i /\ torch_argmax l = Ok (Z.of_nat i).
Proof.
  intros Hi Hbefore.
  assert (H : argmax_pos l = Some i).
  { apply argmax_pos_first_max. exists NaN. split; [| split].
    - exact Hi.
    - intros k y _. unfold score_leb. reflexivity.
    - intros k y Hk Hy. destruct y; try reflexivity.
      exfalso. now apply (Hbefore k). }
  split; [exact H |]. unfold torch_argmax. now rewrite H.
Qed.

Lemma argmax_pos_first_nan_witness :
  argmax_pos [PosInf; dec 9 10; NaN; NaN] = Some 2%nat /\
  torch_argmax [PosInf; dec 9 10; NaN; NaN] = Ok 2.
Proof.
  apply (argmax_pos_first_nan [PosInf; dec 9 10; NaN; NaN] 2).
  - reflexivity.
  - intros [|[|k]] Hk; cbn; try discriminate. lia.
Defined.

Lemma argmax_pos_map_le (f : score -> score) (l : list score) (i : nat) :
  (forall a b, score_leb a b = true -> score_leb (f a) (f b) = true) ->
  argmax_pos l = Some i ->
  exists i', argmax_pos (map f l) = Some i' /\ (i' <= i)%nat.
Proof.
  intros Hf Hi.
  assert (Hne : map f l <> []).
  { destruct l; [discriminate | cbn; discriminate]. }
  destruct (argmax_pos_nonempty _ Hne) as [i' Hi'].
  exists i'. split; [exact Hi' |].
  apply argmax_pos_first_max in Hi, Hi'.
  destruct Hi as (x & Hx & Hmax & _).
  destruct Hi' as (y & Hy & _ & Hfirst).
  destruct (Nat.le_gt_cases i' i) as [Hle | Hgt]; [exact Hle | exfalso].
  rewrite nth_error_map in Hy.
  destruct (nth_error l i') as [x'|] eqn:Hx'; [| discriminate].
  injection Hy as <-.
  assert (Hfx : nth_error (map f l) i = Some (f x)) by (now rewrite nth_error_map, Hx).
  specialize (Hfirst i (f x) Hgt Hfx).
  rewrite (Hf x' x (Hmax i' x' Hx')) in Hfirst. discriminate.
Qed.

Lemma relu_monotone (a b : score) :
  score_leb a b = true -> score_leb (relu a) (relu b) = true.
Proof.
  rewrite !score_leb_le.
  destruct a as [| |p|], b as [| |q|]; cbn; try tauto.
  all: try (destruct (Qle_bool p 0) eqn:Ep);
    try (destruct (Qle_bool q 0) eqn:Eq); cbn; try tauto.
  all: intro H; try apply Qle_refl.
  all: try (apply Qle_bool_iff in Eq; now apply Qle_trans with q).
  all: apply Qlt_le_weak, Qnot_le_lt; intro H'; apply Qle_bool_iff in H'; congruence.
Qed.

(** Passing the scores through maps that never reverse their order, even
    maps that merge distinct scores into ties (a clamp, a rounding
    operation), can only move each peak to an earlier position: the new
    start index is at most the old one, and so is the new end index. *)
Theorem extract_span_monotone_map
    (f g : score -> score) (ids : list Z) (ss es : list score) (s e : Z) :
  (forall a b, score_leb a b = true -> score_leb (f a) (f b) = true) ->
  (forall a b, score_leb a b = true -> score_leb (g a) (g b) = true) ->
  extract_span ids ss es = Ok (s, e) ->
  exists s' e',
    extract_span ids (map f ss) (map g es) = Ok (s', e') /\
    0 <= s' <= s /\ 0 < e' <= e.
Proof.
  intros Hf Hg Hspan.
  destruct (extract_span_ok_inv ids ss es s e Hspan) as (i & j & Hi & Hj & -> & ->).
  destruct (argmax_pos_map_le f ss i Hf Hi) as (i' & Hi' & Hle_i).
  destruct (argmax_pos_map_le g es j Hg Hj) as (j' & Hj' & Hle_j).
  exists (Z.of_nat i'), (Z.of_nat j' + 1).
  rewrite extract_span_eq, Hi', Hj'.
  split; [reflexivity | lia].
Qed.

Lemma extract_span_monotone_map_witness :
  exists s' e',
    extract_span [101; 7; 102]
      (map relu [Fin (-1 # 2); Fin (-1 # 4); NegInf])
      (map relu [Fin (-1 # 2); Fin (1 # 4); Fin (3 # 4)]) = Ok (s', e') /\
    0 <= s' <= 1 /\ 0 < e' <= 3.
Proof.
  apply (extract_span_monotone_map relu relu [101; 7; 102]
           [Fin (-1 # 2); Fin (-1 # 4); NegInf]
           [Fin (-1 # 2); Fin (1 # 4); Fin (3 # 4)] 1 3).
  - apply relu_monotone.
  - apply relu_monotone.
  - reflexivity.
Defined.

(** The argmax of two rows put end to end is the argmax of the first row
    unless the best score of the second row is strictly above the best of the
    first, in which case it is the argmax of the second row, moved by the
    length of the first. *)
Theorem argmax_pos_app (l1 l2 : list score) (i1 i2 : nat) (x1 x2 : score) :
  argmax_pos l1 = Some i1 -> nth_error l1 i1 = Some x1 ->
  argmax_pos l2 = Some i2 -> nth_error l2 i2 = Some x2 ->
  argmax_pos (l1 ++ l2) =
  Some (if score_leb x2 x1 then i1 else (length l1 + i2)%nat).
Proof.
  intros H1 Hx1 H2 Hx2.
  apply argmax_pos_first_max in H1, H2.
  destruct H1 as (y1 & Hy1 & Hmax1 & Hfirst1).
  destruct H2 as (y2 & Hy2 & Hmax2 & Hfirst2).
  assert (y1 = x1) by congruence. assert (y2 = x2) by congruence. subst y1 y2.
  assert (Hlt1 : (i1 < length l1)%nat) by (apply nth_error_Some; congruence).
  apply argmax_pos_first_max.
  destruct (score_leb x2 x1) eqn:Hcmp.
  - exists x1. split; [| split].
    + now rewrite nth_error_app1.
    + intros k y Hk.
      destruct (Nat.lt_ge_cases k (length l1)) as [Hlt | Hge].
      * rewrite nth_error_app1 in Hk by exact Hlt. eauto.
      * rewrite nth_error_app2 in Hk by exact Hge.
        apply score_leb_trans with x2; eauto.
    + intros k y Hlt Hk. rewrite nth_error_app1 in Hk by lia. eauto.
  - exists x2. split; [| split].
    + rewrite nth_error_app2 by lia.
      now replace (length l1 + i2 - length l1)%nat with i2 by lia.
    + intros k y Hk.
      destruct (Nat.lt_ge_cases k (length l1)) as [Hlt | Hge].
      * rewrite nth_error_app1 in Hk by exact Hlt.
        apply score_leb_trans with x1; [eauto | now apply score_leb_total].
      * rewrite nth_error_app2 in Hk by exact Hge. eauto.
    + intros k y Hlt Hk.
      destruct (Nat.lt_ge_cases k (length l1)) as [Hlt' | Hge].
      * rewrite nth_error_app1 in Hk by exact Hlt'.
        destruct (score_leb x2 y) eqn:Hxy; [| reflexivity].
        rewrite (score_leb_trans x2 y x1 Hxy (Hmax1 k y Hk)) in Hcmp. discriminate.
      * rewrite nth_error_app2 in Hk by exact Hge.
        apply (Hfirst2 (k - length l1)%nat); [lia | exact Hk].
Qed.

Lemma argmax_pos_app_witness :
  argmax_pos ([dec 1 10; dec 5 10] ++ [dec 5 10; dec 7 10; dec 7 10]) = Some 3%nat.
Proof.
  apply (argmax_pos_app [dec 1 10; dec 5 10] [dec 5 10; dec 7 10; dec 7 10]
           1 1 (dec 5 10) (dec 7 10)).
  - reflexivity.
  - reflexivity.
  - reflexivity.
  - reflexivity.
Defined.

Lemma nth_error_peak_at (n i k : nat) :
  nth_error (peak_at n i) k =
  if (k <? n)%nat then Some (if (k =? i)%nat then Fin 1 else Fin 0) else None.
Proof.
  unfold peak_at. rewrite nth_error_map, nth_error_seq.
  destruct (k <? n)%nat; reflexivity.
Qed.

Lemma length_peak_at (n i : nat) : length (peak_at n i) = n.
Proof. unfold peak_at. now rewrite length_map, length_seq. Qed.

Lemma argmax_pos_peak_at (n i : nat) :
  (i < n)%nat -> argmax_pos (peak_at n i) = Some i.
Proof.
  intro Hi. apply argmax_pos_first_max. exists (Fin 1). split; [| split].
  - rewrite nth_error_peak_at.
    destruct (Nat.ltb_spec i n); [| lia]. now rewrite Nat.eqb_refl.
  - intros k y Hk. rewrite nth_error_peak_at in Hk.
    destruct (k <? n)%nat; [| discriminate].
    destruct (k =? i)%nat; injection Hk as <-; reflexivity.
  - intros k y Hlt Hk. rewrite nth_error_peak_at in Hk.
    destruct (k <? n)%nat; [| discriminate].
    destruct (Nat.eqb_spec k i); [lia |].
    injection Hk as <-. reflexivity.
Qed.

(** The extractor puts no restriction on the span beyond its bounds: for
    every start position and every end position of the token row there are
    score rows of the right length on which it returns exactly that pair
    (inverted pairs included) and renders exactly the tokens in between. *)
Theorem every_span_reachable (ids : list Z) (i j : nat) :
  (i < length ids)%nat -> (j < length ids)%nat ->
  exists ss es,
    length ss = length ids /\ length es = length ids /\
    extract_span ids ss es = Ok (Z.of_nat i, Z.of_nat j + 1) /\
    answer_ids ids ss es = Ok (firstn (S j - i) (skipn i ids)).
Proof.
  intros Hi Hj.
  exists (peak_at (length ids) i), (peak_at (length ids) j).
  pose proof (argmax_pos_peak_at (length ids) i Hi) as Hpi.
  pose proof (argmax_pos_peak_at (length ids) j Hj) as Hpj.
  split; [apply length_peak_at |]. split; [apply length_peak_at |].
  split.
  - now rewrite extract_span_eq, Hpi, Hpj.
  - apply answer_ids_in_range; auto using length_peak_at.
Qed.

Lemma every_span_reachable_witness :
  exists ss es,
    length ss = 5%nat /\ length es = 5%nat /\
    extract_span [101; 7; 102; 8; 102] ss es = Ok (0, 3) /\
    answer_ids [101; 7; 102; 8; 102] ss es = Ok [101; 7; 102].
Proof.
  apply (every_span_reachable [101; 7; 102; 8; 102] 0 2).
  - cbn. lia.
  - cbn. lia.
Defined.

Lemma argmax_pos_head (x : score) (l : list score) :
  (forall y, In y l -> score_leb y x = true) ->
  argmax_pos (x :: l) = Some 0%nat.
Proof.
  intro Hle. apply argmax_pos_first_max. exists x. split; [| split].
  - reflexivity.
  - intros [|k] y Hk; cbn in Hk.
    + injection Hk as <-. apply score_leb_refl.
    + apply Hle. now apply nth_error_In with k.
  - intros k y Hk. lia.
Qed.

(** When no start score is above the first one and no end score is above
    the first one (uniform rows among them), the pair is (0, 1): the answer
    is the first token of the row alone. *)
Theorem extract_span_first_token
    (ids : list Z) (x y : score) (ss es : list score) :
  (forall a, In a ss -> score_leb a x = true) ->
  (forall a, In a es -> score_leb a y = true) ->
  extract_span ids (x :: ss) (y :: es) = Ok (0, 1) /\
  answer_ids ids (x :: ss) (y :: es) = Ok (firstn 1 ids).
Proof.
  intros Hss Hes.
  assert (Hspan : extract_span ids (x :: ss) (y :: es) = Ok (0, 1))
    by (now rewrite extract_span_eq, !argmax_pos_head).
  split; [exact Hspan |].
  rewrite answer_ids_eq, Hspan. cbn [bind fst snd]. f_equal.
  unfold py_slice, adjust_index. cbn [Z.ltb Z.compare].
  destruct ids as [|t ids]; [reflexivity |].
  replace (Z.min 0 _) with 0 by lia.
  replace (Z.min 1 _) with 1 by (cbn [length]; lia).
  reflexivity.
Qed.

Lemma extract_span_first_token_witness :
  extract_span [101; 7; 102]
    [dec 3 10; dec 3 10; dec 3 10] [dec 4 10; dec 2 5; dec 4 10] = Ok (0, 1) /\
  answer_ids [101; 7; 102]
    [dec 3 10; dec 3 10; dec 3 10] [dec 4 10; dec 2 5; dec 4 10] = Ok [101].
Proof.
  apply (extract_span_first_token [101; 7; 102] (dec 3 10) (dec 4 10)
           [dec 3 10; dec 3 10] [dec 2 5; dec 4 10]).
  - intros a [<- | [<- | []]]; reflexivity.
  - intros a [<- | [<- | []]]; reflexivity.
Defined.

(** ** The cell that runs the questions *)

Section RunQuestionsFacts.

Variable batch_encoding : Type.
Variable tokenizer : string -> string -> batch_encoding.
Variable input_ids_of : batch_encoding -> list Z.
Variable model : batch_encoding -> list score * list score.
Variable convert_ids_to_tokens : list Z -> list string.
Variable convert_tokens_to_string : list string -> string.

Local Abbreviation ask :=
  (answer_question batch_encoding tokenizer input_ids_of model
     convert_ids_to_tokens convert_tokens_to_string).

Local Abbreviation run :=
  (run_questions batch_encoding tokenizer input_ids_of model
     convert_ids_to_tokens convert_tokens_to_string).

Lemma run_questions_app (done rest : list string) (answers : list string)
    (context : string) (stdout : list string) :
  Forall2 (fun question answer => ask question context = Ok answer) done answers ->
  run (done ++ rest) context stdout =
  run rest context (stdout ++ transcript done answers).
Proof.
  intro Hdone. revert stdout.
  induction Hdone as [| question answer done answers Hq _ IH]; intro stdout.
  - cbn. now rewrite app_nil_r.
  - cbn [app run_questions transcript]. rewrite Hq. unfold print. rewrite IH.
    now rewrite <- !app_assoc.
Qed.

(** When every question is answered, the run ends normally and has printed,
    after what was on standard output before, the questions in their order,
    each followed at once by its own answer, all asked of the same
    context. *)
Theorem run_questions_transcript (questions answers : list string)
    (context : string) (stdout : list string) :
  Forall2 (fun question answer => ask question context = Ok answer)
    questions answers ->
  run questions context stdout = (Ok tt, stdout ++ transcript questions answers) /\
  length (transcript questions answers) = (2 * length questions)%nat.
Proof.
  intro Hall. split.
  - rewrite <- (app_nil_r questions) at 1.
    now rewrite (run_questions_app questions [] answers context stdout Hall).
  - induction Hall as [| question answer questions answers _ _ IH].
    + reflexivity.
    + cbn [transcript length]. rewrite IH. lia.
Qed.



End RunQuestionsFacts.

Lemma run_questions_transcript_witness :
  run_questions Toy.encoding Toy.tokenizer Toy.enc_ids Toy.model
    Toy.convert_ids_to_tokens Toy.convert_tokens_to_string
    ["who founded it?"; "who else?"]%string "elon musk and sam altman" []
  = (Ok tt,
     [] ++ transcript ["who founded it?"; "who else?"]%string
             ["elon musk and sam altman"; "elon musk and sam altman"]%string) /\
  length (transcript ["who founded it?"; "who else?"]%string
            ["elon musk and sam altman"; "elon musk and sam altman"]%string)
  = (2 * 2)%nat.
Proof.
  apply (run_questions_transcript Toy.encoding Toy.tokenizer Toy.enc_ids Toy.model
           Toy.convert_ids_to_tokens Toy.convert_tokens_to_string).
  constructor; [reflexivity |].
  constructor; [reflexivity |].
  constructor.
Defined.


(** ** The run when a collaborator raises *)

Section FallibleFacts.

Variable ext : Type.
Variable batch_encoding : Type.
Variable tokenizer : string -> string -> Fallible.outcome ext batch_encoding.
Variable input_ids_of : batch_encoding -> list Z.
Variable model : batch_encoding -> Fallible.outcome ext (list score * list score).
Variable convert_ids_to_tokens : list Z -> Fallible.outcome ext (list string).
Variable convert_tokens_to_string : list string -> Fallible.outcome ext string.

Local Abbreviation ask :=
  (Fallible.answer_question ext batch_encoding tokenizer input_ids_of model
     convert_ids_to_tokens convert_tokens_to_string).

Local Abbreviation run :=
  (Fallible.run_questions ext batch_encoding tokenizer input_ids_of model
     convert_ids_to_tokens convert_tokens_to_string).

Lemma fallible_run_questions_app (done rest : list string) (answers : list string)
    (context : string) (stdout : list string) :
  Forall2 (fun question answer => ask question context = Fallible.Returned answer)
    done answers ->
  run (done ++ rest) context stdout =
  run rest context (stdout ++ transcript done answers).
Proof.
  intro Hdone. revert stdout.
  induction Hdone as [| question answer done answers Hq _ IH]; intro stdout.
  - cbn. now rewrite app_nil_r.
  - cbn [app Fallible.run_questions transcript]. rewrite Hq. unfold print.
    rewrite IH. now rewrite <- !app_assoc.
Qed.

(** The first question whose call raises, whether inside a collaborator or
    in the notebook's own lines, ends the run with that exception: the
    transcript of the questions before it and the line of the failing
    question have been printed, its answer line and everything about the
    questions after it have not. *)
Theorem run_questions_abort (done answers : list string) (question : string)
    (rest : list string) (t : Fallible.thrown ext)
    (context : string) (stdout : list string) :
  Forall2 (fun question answer => ask question context = Fallible.Returned answer)
    done answers ->
  ask question context = Fallible.Thrown t ->
  run (done ++ question :: rest) context stdout =
  (Fallible.Thrown t,
   stdout ++ transcript done answers ++ [question_line question]).
Proof.
  intros Hdone Hraise.
  rewrite (fallible_run_questions_app done (question :: rest) answers
             context stdout Hdone).
  cbn [Fallible.run_questions]. rewrite Hraise. unfold print.
  now rewrite <- app_assoc.
Qed.

End FallibleFacts.

(** With collaborators that always return, the two embeddings of
    [answer_question] and of the run agree. *)
Lemma fallible_answer_question_total
    (ext batch_encoding : Type)
    (tokenizer : string -> string -> batch_encoding)
    (input_ids_of : batch_encoding -> list Z)
    (model : batch_encoding -> list score * list score)
    (convert_ids_to_tokens : list Z -> list string)
    (convert_tokens_to_string : list string -> string)
    (question context : string) :
  Fallible.answer_question ext batch_encoding
    (fun q c => Fallible.Returned (tokenizer q c)) input_ids_of
    (fun inputs => Fallible.Returned (model inputs))
    (fun ids => Fallible.Returned (convert_ids_to_tokens ids))
    (fun tokens => Fallible.Returned (convert_tokens_to_string tokens))
    question context
  = Fallible.own
      (answer_question batch_encoding tokenizer input_ids_of model
         convert_ids_to_tokens convert_tokens_to_string question context).
Proof.
  unfold Fallible.answer_question, answer_question. cbn [Fallible.bind].
  destruct (torch_argmax (fst (model (tokenizer question context))));
    [| reflexivity].
  destruct (torch_argmax (snd (model (tokenizer question context))));
    reflexivity.
Qed.

Lemma run_questions_abort_witness :
  Fallible.run_questions string Toy.encoding ToyLimit.tokenizer Toy.enc_ids
    ToyLimit.model ToyLimit.convert_ids_to_tokens ToyLimit.convert_tokens_to_string
    (["who?"%string] ++ "who founded it?"%string :: ["never asked"%string])
    "elon musk and sam altman" []
  = (Fallible.Thrown (Fallible.Foreign "row too long"%string),
     [] ++ transcript ["who?"%string] ["elon musk and sam altman"%string]
        ++ [question_line "who founded it?"]).
Proof.
  apply (run_questions_abort string Toy.encoding ToyLimit.tokenizer Toy.enc_ids
           ToyLimit.model ToyLimit.convert_ids_to_tokens
           ToyLimit.convert_tokens_to_string).
  - constructor; [reflexivity | constructor].
  - reflexivity.
Defined.
